(** * bboltkv: a typed key-value store over a bbolt bucket

    A shallow embedding of [bboltkv.go] and the properties of its
    [Open], [Put], [Get], [Delete] and [GetBucketName].

    The package is a thin layer over two libraries it imports:
    - [go.etcd.io/bbolt], the storage engine.  Its part of the model
      ([Module bbolt]) follows the engine's documented contract: a bucket
      keeps its entries in byte-lexicographic key order, [Cursor.Seek]
      stops at the first key that is not smaller than the one sought,
      [Bucket.Put] refuses a blank key, a key longer than [MaxKeySize]
      and a value longer than [MaxValueSize], [DB.Update] commits when
      its function returns nil and rolls back otherwise, [DB.View]
      always rolls back.  Disk failures are outside the model.
    - [encoding/gob], the codec, taken as an interface ([Class Gob]). *)

From Stdlib Require Import List String Bool ZArith NArith Lia.
From Stdlib Require Import Strings.Byte.
Import ListNotations.

Local Open Scope list_scope.

(** ** Byte strings *)

(** Go's [[]byte]. *)
Definition bytes := list byte.

(** [bytes.Compare]: byte-lexicographic order, a proper prefix first. *)
Fixpoint bytes_Compare (a b : bytes) : comparison :=
  match a, b with
  | [], [] => Eq
  | [], _ :: _ => Lt
  | _ :: _, [] => Gt
  | x :: a', y :: b' =>
      match N.compare (Byte.to_N x) (Byte.to_N y) with
      | Eq => bytes_Compare a' b'
      | Lt => Lt
      | Gt => Gt
      end
  end.

(** [bytes.Equal]. *)
Definition bytes_Equal (a b : bytes) : bool :=
  match bytes_Compare a b with Eq => true | _ => false end.

(** Go's [len], an [int]. *)
Definition len (b : bytes) : Z := Z.of_nat (List.length b).

(** The conversions [[]byte(s)] and [string(b)]. *)
Definition bytes_of_string (s : string) : bytes := list_byte_of_string s.
Definition string_of_bytes (b : bytes) : string := string_of_list_byte b.


(** ** Errors, outcomes and observable steps *)

(** The values of Go's [error] interface that the package can return:
    its own two, those of the engine, and those of the codec.  A gob
    error is modelled by its message. *)
Inductive error : Type :=
| ErrNotFound            (* bboltkv: key not found *)
| ErrBadValue            (* bboltkv: bad value *)
| ErrTimeout             (* bbolt: the file is locked by another process *)
| ErrTxNotWritable       (* bbolt *)
| ErrBucketNameRequired  (* bbolt *)
| ErrKeyRequired         (* bbolt *)
| ErrKeyTooLarge         (* bbolt *)
| ErrValueTooLarge       (* bbolt *)
| GobError (msg : string).

(** How a call that has an [error] result ends: it returns nil, it returns
    an error, or it panics (a method called on a nil [*Bucket]). *)
Inductive outcome : Type :=
| Returns (err : option error)
| Panics.

Definition returns_nil : outcome := Returns None.
Definition fails (e : error) : outcome := Returns (Some e).

(** The calls into the two libraries, in the order they are made. *)
Inductive event : Type :=
| EvEncode                    (* gob: Encoder.Encode *)
| EvDecode                    (* gob: Decoder.Decode *)
| EvBegin (writable : bool)   (* bbolt: a transaction starts *)
| EvCommit
| EvRollback.

(** What a call leaves behind: the state it ran on, how it ended, what it
    handed back besides the error, and the library calls it made. *)
Record Ret (S A : Type) : Type := mkRet {
  state : S;
  result : outcome;
  out : A;
  trace : list event
}.
Arguments mkRet {S A} _ _ _ _.
Arguments state {S A} _.
Arguments result {S A} _.
Arguments out {S A} _.
Arguments trace {S A} _.

(** ** The storage engine *)

Module bbolt.

Definition MaxKeySize : Z := 32768.
Definition MaxValueSize : Z := 2147483646.   (* (1 << 31) - 2 *)

(** A leaf element: key and value. *)
Definition inode : Type := (bytes * bytes)%type.

(** A bucket: its elements, in the order a cursor walks them. *)
Definition Bucket : Type := list inode.

(** The contents of an open file: its buckets by name. *)
Definition DB : Type := list (bytes * Bucket).

Record Tx : Type := mkTx { root : DB; writable : bool }.

Fixpoint find_bucket (name : bytes) (d : DB) : option Bucket :=
  match d with
  | [] => None
  | (n, b) :: rest =>
      if bytes_Equal n name then Some b else find_bucket name rest
  end.

Fixpoint write_bucket (name : bytes) (b : Bucket) (d : DB) : DB :=
  match d with
  | [] => []
  | (n, b0) :: rest =>
      if bytes_Equal n name then (n, b) :: rest
      else (n, b0) :: write_bucket name b rest
  end.

(** A [*Bucket]: nil, or the bucket of that name in the transaction. *)
Definition BucketRef : Type := option bytes.

(** [Tx.Bucket]: nil when the bucket does not exist. *)
Definition Tx_Bucket (tx : Tx) (name : bytes) : BucketRef :=
  match find_bucket name (root tx) with
  | Some _ => Some name
  | None => None
  end.

Definition elements (tx : Tx) (name : bytes) : Bucket :=
  match find_bucket name (root tx) with
  | Some b => b
  | None => []
  end.

(** [Tx.CreateBucketIfNotExists]. *)
Definition Tx_CreateBucketIfNotExists (tx : Tx) (name : bytes)
  : Tx * option error :=
  if negb (writable tx) then (tx, Some ErrTxNotWritable)
  else if (len name =? 0)%Z then (tx, Some ErrBucketNameRequired)
  else match find_bucket name (root tx) with
       | Some _ => (tx, None)
       | None => (mkTx (root tx ++ [(name, [])]) (writable tx), None)
       end.

(** The search of [node.put], [node.del] and [Cursor.seek]: the index
    of the first element whose key is not below [key]
    ([sort.Search] with [bytes.Compare(inodes[i].key, key) != -1]). *)
Fixpoint search (key : bytes) (b : Bucket) : nat :=
  match b with
  | [] => 0
  | (k, _) :: rest =>
      match bytes_Compare k key with
      | Lt => S (search key rest)
      | _ => 0
      end
  end.

Fixpoint insert_at (i : nat) (e : inode) (b : Bucket) : Bucket :=
  match i, b with
  | O, _ => e :: b
  | S _, [] => [e]
  | S j, x :: rest => x :: insert_at j e rest
  end.

Fixpoint replace_at (i : nat) (e : inode) (b : Bucket) : Bucket :=
  match i, b with
  | _, [] => []
  | O, _ :: rest => e :: rest
  | S j, x :: rest => x :: replace_at j e rest
  end.

Fixpoint remove_at (i : nat) (b : Bucket) : Bucket :=
  match i, b with
  | _, [] => []
  | O, _ :: rest => rest
  | S j, x :: rest => x :: remove_at j rest
  end.

(** Is the element at [i] one with exactly this key? *)
Definition exact (i : nat) (key : bytes) (b : Bucket) : bool :=
  match nth_error b i with
  | Some (k, _) => bytes_Equal k key
  | None => false
  end.

(** [node.put]: overwrite on an exact match, insert in place otherwise. *)
Definition node_put (key val : bytes) (b : Bucket) : Bucket :=
  let index := search key b in
  if exact index key b then replace_at index (key, val) b
  else insert_at index (key, val) b.

(** [node.del]: nothing happens when the key is not found. *)
Definition node_del (key : bytes) (b : Bucket) : Bucket :=
  let index := search key b in
  if exact index key b then remove_at index b else b.

(** [Bucket.Put]. *)
Definition Bucket_Put (tx : Tx) (b : BucketRef) (key val : bytes)
  : Tx * outcome :=
  match b with
  | None => (tx, Panics)
  | Some name =>
      if negb (writable tx) then (tx, fails ErrTxNotWritable)
      else if (len key =? 0)%Z then (tx, fails ErrKeyRequired)
      else if (len key >? MaxKeySize)%Z then (tx, fails ErrKeyTooLarge)
      else if (len val >? MaxValueSize)%Z then (tx, fails ErrValueTooLarge)
      else
        (mkTx (write_bucket name (node_put key val (elements tx name))
                 (root tx)) (writable tx),
         returns_nil)
  end.

(** A cursor: the bucket it walks and its position there. *)
Record Cursor : Type := mkCursor { over : bytes; index : nat }.

(** [Bucket.Cursor]; [None] is the panic on a nil bucket. *)
Definition Bucket_Cursor (b : BucketRef) : option Cursor :=
  match b with
  | None => None
  | Some name => Some (mkCursor name 0)
  end.

(** [Cursor.Seek]: move to the first key not below [seek] and return
    that element; a nil key when there is none. *)
Definition Cursor_Seek (tx : Tx) (c : Cursor) (seek : bytes)
  : Cursor * option inode :=
  let i := search seek (elements tx (over c)) in
  (mkCursor (over c) i, nth_error (elements tx (over c)) i).

(** [Cursor.Delete]: remove the element under the cursor. *)
Definition Cursor_Delete (tx : Tx) (c : Cursor) : Tx * option error :=
  if negb (writable tx) then (tx, Some ErrTxNotWritable)
  else
    match nth_error (elements tx (over c)) (index c) with
    | Some (key, _) =>
        (mkTx (write_bucket (over c) (node_del key (elements tx (over c)))
                 (root tx)) (writable tx),
         None)
    | None => (tx, None)
    end.

(** [DB.Update]: run [fn] in a writable transaction; commit when it
    returns nil, roll back when it returns an error or panics. *)
Definition DB_Update {A : Type} (d : DB) (fn : Tx -> Ret Tx A)
  : Ret DB A :=
  let r := fn (mkTx d true) in
  match result r with
  | Returns None =>
      mkRet (root (state r)) (result r) (out r)
            (EvBegin true :: trace r ++ [EvCommit])
  | _ =>
      mkRet d (result r) (out r)
            (EvBegin true :: trace r ++ [EvRollback])
  end.

(** [DB.View]: run [fn] in a read-only transaction, then roll back. *)
Definition DB_View {A : Type} (d : DB) (fn : Tx -> Ret Tx A)
  : Ret DB A :=
  let r := fn (mkTx d false) in
  mkRet d (result r) (out r) (EvBegin false :: trace r ++ [EvRollback]).


(** The engine's invariant on a bucket: keys strictly increasing. *)
Definition above (k : bytes) (e : inode) : bool :=
  match bytes_Compare k (fst e) with Lt => true | _ => false end.

Fixpoint ordered (b : Bucket) : bool :=
  match b with
  | [] => true
  | e :: rest => forallb (above (fst e)) rest && ordered rest
  end.

Definition well_formed (d : DB) : bool :=
  forallb (fun nb => ordered (snd nb)) d.

End bbolt.

(** ** The codec *)

(** [encoding/gob] as the package uses it.  [V] are the Go values that
    can be handed to [Put], [T] the non-nil destinations that can be
    handed to [Get]; [PtrTo v] is a pointer to a variable of the type of
    [v].  [Decode] gives the value the destination holds afterwards. *)
Class Gob (V T : Type) : Type := {
  PtrTo : V -> T;
  Encode : V -> string + bytes;
  Decode : bytes -> T -> string + V
}.


(** ** The store (bboltkv.go) *)

(** [type Store struct]: the database the handle points to, as it is now,
    and the name of the bucket. *)
Record Store : Type := mkStore { db : bbolt.DB; bucketName : bytes }.

(** [Open].  [file] is what [bbolt.Open(path, 0640, opts)] returns: an
    error (the lock timeout among them) or the database of the file, which
    has no bucket when the file is new.  The result is the pair Go
    returns: the store, or nil, and the error. *)
Definition Open (file : error + bbolt.DB) (bucketName : string)
  : option Store * outcome :=
  match file with
  | inl err => (None, fails err)
  | inr d =>
      let r := bbolt.DB_Update d (fun tx =>
                 let (tx', err) :=
                   bbolt.Tx_CreateBucketIfNotExists tx
                     (bytes_of_string bucketName) in
                 mkRet tx' (Returns err) tt []) in
      match result r with
      | Returns None =>
          (Some (mkStore (state r) (bytes_of_string bucketName)), returns_nil)
      | other => (None, other)
      end
  end.

(** [GetBucketName]. *)
Definition GetBucketName (s : Store) : bytes := bucketName s.

(** [GetDb]. *)
Definition GetDb (s : Store) : bbolt.DB := db s.


(** [Delete]. *)
Definition Delete (s : Store) (key : string) : Ret Store unit :=
  let r := bbolt.DB_Update (db s) (fun tx =>
    match bbolt.Bucket_Cursor (bbolt.Tx_Bucket tx (bucketName s)) with
    | None => mkRet tx Panics tt []
    | Some c =>
        let (c, kv) := bbolt.Cursor_Seek tx c (bytes_of_string key) in
        match kv with
        | None => mkRet tx (fails ErrNotFound) tt []
        | Some (k, _) =>
            if negb (String.eqb (string_of_bytes k) key)
            then mkRet tx (fails ErrNotFound) tt []
            else
              let (tx', err) := bbolt.Cursor_Delete tx c in
              mkRet tx' (Returns err) tt []
        end
    end) in
  mkRet (mkStore (state r) (bucketName s)) (result r) tt (trace r).

Section Typed.

Context {V T : Type} `{G : Gob V T}.

(** [Put].  [value] is Go's [interface{}]: [None] is the nil interface,
    [Some v] any other value (a typed nil pointer among them, which the
    encoder refuses). *)
Definition Put (s : Store) (key : string) (value : option V)
  : Ret Store unit :=
  match value with
  | None => mkRet s (fails ErrBadValue) tt []
  | Some v =>
      match Encode v with
      | inl err => mkRet s (fails (GobError err)) tt [EvEncode]
      | inr buf =>
          let r := bbolt.DB_Update (db s) (fun tx =>
            let (tx', res) :=
              bbolt.Bucket_Put tx (bbolt.Tx_Bucket tx (bucketName s))
                (bytes_of_string key) buf in
            mkRet tx' res tt []) in
          mkRet (mkStore (state r) (bucketName s)) (result r) tt
                (EvEncode :: trace r)
      end
  end.

(** [Get].  [value] is the destination: [None] is nil, [Some t] a
    destination the decoder is run on.  [out] of the result is what the
    destination holds when the decoder has filled it. *)
Definition Get (s : Store) (key : string) (value : option T)
  : Ret Store (option V) :=
  let r := bbolt.DB_View (db s) (fun tx =>
    match bbolt.Bucket_Cursor (bbolt.Tx_Bucket tx (bucketName s)) with
    | None => mkRet tx Panics None []
    | Some c =>
        match snd (bbolt.Cursor_Seek tx c (bytes_of_string key)) with
        | None => mkRet tx (fails ErrNotFound) None []
        | Some (k, v) =>
            if negb (String.eqb (string_of_bytes k) key)
            then mkRet tx (fails ErrNotFound) None []
            else
              match value with
              | None => mkRet tx returns_nil None []
              | Some dest =>
                  match Decode v dest with
                  | inl err => mkRet tx (fails (GobError err)) None [EvDecode]
                  | inr got => mkRet tx returns_nil (Some got) [EvDecode]
                  end
              end
        end
    end) in
  mkRet (mkStore (state r) (bucketName s)) (result r) (out r) (trace r).

End Typed.

(** ** Sequences of calls *)

Section Calls.

Context {V T : Type} `{G : Gob V T}.

(** A call on an open store. *)
Inductive call : Type :=
| CallPut (key : string) (value : option V)
| CallGet (key : string) (value : option T)
| CallDelete (key : string).

(** The store after one call, and after a sequence of calls. *)
Definition after (s : Store) (c : call) : Store :=
  match c with
  | CallPut key value => state (Put s key value)
  | CallGet key value => state (Get s key value)
  | CallDelete key => state (Delete s key)
  end.

Definition run (s : Store) (calls : list call) : Store :=
  fold_left after calls s.

End Calls.

(** ** What a call answers *)

Section Answers.

Context {V T : Type} `{G : Gob V T}.

(** The error result of a call. *)
Definition answer (s : Store) (c : call) : outcome :=
  match c with
  | CallPut key value => result (Put s key value)
  | CallGet key value => result (Get s key value)
  | CallDelete key => result (Delete s key)
  end.

End Answers.

(** ** The collection as a mapping *)

(** The elements of the store's bucket. *)
Definition collection (s : Store) : bbolt.Bucket :=
  match bbolt.find_bucket (bucketName s) (db s) with
  | Some b => b
  | None => []
  end.

(** The store's invariant: its bucket exists and the engine keeps it in
    key order. *)
Definition store_ok (s : Store) : bool :=
  match bbolt.find_bucket (bucketName s) (db s) with
  | Some b => bbolt.ordered b
  | None => false
  end.

(** Direct exact-match lookup: the bytes held under [key], if any. *)
Fixpoint lookup (key : bytes) (m : bbolt.Bucket) : option bytes :=
  match m with
  | [] => None
  | (k, v) :: rest => if bytes_Equal k key then Some v else lookup key rest
  end.


(** Is the key in the collection? *)
Definition present (s : Store) (key : string) : bool :=
  match lookup (bytes_of_string key) (collection s) with
  | Some _ => true
  | None => false
  end.

Section Direct.

Context {V T : Type} `{G : Gob V T}.

(** [Get] as the specification words it: an exact-match lookup in the
    mapping, the nil destination answered before the decoder runs. *)
Definition Get_direct (s : Store) (key : string) (value : option T)
  : outcome * option V :=
  match lookup (bytes_of_string key) (collection s) with
  | None => (fails ErrNotFound, None)
  | Some v =>
      match value with
      | None => (returns_nil, None)
      | Some dest =>
          match Decode v dest with
          | inl err => (fails (GobError err), None)
          | inr got => (returns_nil, Some got)
          end
      end
  end.

End Direct.

(** [Delete] as the specification words it: the entry with exactly this
    key leaves the mapping, and a key that is not there is reported. *)
Definition Delete_direct (s : Store) (key : string)
  : outcome * bbolt.Bucket :=
  match lookup (bytes_of_string key) (collection s) with
  | None => (fails ErrNotFound, collection s)
  | Some _ =>
      (returns_nil,
       filter (fun e => negb (bytes_Equal (fst e) (bytes_of_string key)))
              (collection s))
  end.

(** What [Bucket.Put] takes: a key of 1 to [MaxKeySize] bytes and a value
    of at most [MaxValueSize] bytes. *)
Definition key_taken (key : string) : bool :=
  negb (len (bytes_of_string key) =? 0)%Z
  && negb (len (bytes_of_string key) >? bbolt.MaxKeySize)%Z.

Definition value_taken (buf : bytes) : bool :=
  negb (len buf >? bbolt.MaxValueSize)%Z.

(** Every entry is one that [Bucket.Put] takes. *)
Definition within_limits (m : bbolt.Bucket) : bool :=
  forallb (fun e => negb (len (fst e) =? 0)%Z
                    && negb (len (fst e) >? bbolt.MaxKeySize)%Z
                    && negb (len (snd e) >? bbolt.MaxValueSize)%Z) m.

(** ** A small codec to run the model on *)

Module Sample.

(** Three shapes of Go value: a string, a bool, and a channel, which gob
    refuses to encode. *)
Inductive val : Type :=
| Str (s : string)
| Bool (b : bool)
| Chan.

Inductive ptr : Type := PtrStr | PtrBool | PtrChan.

Definition ptr_to (v : val) : ptr :=
  match v with Str _ => PtrStr | Bool _ => PtrBool | Chan => PtrChan end.

Definition encode (v : val) : string + bytes :=
  match v with
  | Str s => inr ("s"%byte :: bytes_of_string s)
  | Bool true => inr ["b"; "1"]%byte
  | Bool false => inr ["b"; "0"]%byte
  | Chan => inl "gob: unsupported type"%string
  end.

Definition decode (buf : bytes) (p : ptr) : string + val :=
  match p, buf with
  | PtrStr, ("s"%byte :: rest) => inr (Str (string_of_bytes rest))
  | PtrBool, ["b"; "1"]%byte => inr (Bool true)
  | PtrBool, ["b"; "0"]%byte => inr (Bool false)
  | _, [] => inl "EOF"%string
  | _, _ => inl "gob: type mismatch"%string
  end.

#[export] Instance gob : Gob val ptr :=
  {| PtrTo := ptr_to; Encode := encode; Decode := decode |}.

(** A new file, opened with bucket name [kv]. *)
Definition fresh : Store :=
  match fst (Open (inr []) "kv") with
  | Some s => s
  | None => mkStore [] []
  end.

(** The store after three writes. *)
Definition three : Store :=
  let s1 := state (Put fresh "beta" (Some (Str "two"))) in
  let s2 := state (Put s1 "alpha" (Some (Bool true))) in
  state (Put s2 "alphabet" (Some (Str "abc"))).


End Sample.

(** * Proofs *)

(** ** Byte strings *)

Lemma to_N_inj (x y : byte) : Byte.to_N x = Byte.to_N y -> x = y.
Proof.
  intros E.
  assert (S : Some x = Some y)
    by (rewrite <- (Byte.of_to_N x), <- (Byte.of_to_N y), E; reflexivity).
  now inversion S.
Qed.

Lemma bytes_Compare_refl (a : bytes) : bytes_Compare a a = Eq.
Proof.
  induction a as [|x a IH]; simpl; [reflexivity|].
  now rewrite N.compare_refl.
Qed.

Lemma bytes_Compare_eq (a b : bytes) : bytes_Compare a b = Eq -> a = b.
Proof.
  revert b; induction a as [|x a IH]; intros [|y b]; simpl; try discriminate;
    [reflexivity|].
  destruct (N.compare_spec (Byte.to_N x) (Byte.to_N y)) as [E| |];
    try discriminate.
  intros H. apply to_N_inj in E. apply IH in H. now subst.
Qed.

Lemma bytes_Compare_eq_iff (a b : bytes) : bytes_Compare a b = Eq <-> a = b.
Proof.
  split; [apply bytes_Compare_eq | intros ->; apply bytes_Compare_refl].
Qed.

Lemma bytes_Compare_antisym (a b : bytes) :
  bytes_Compare b a = CompOpp (bytes_Compare a b).
Proof.
  revert b; induction a as [|x a IH]; intros [|y b]; simpl; try reflexivity.
  rewrite (N.compare_antisym (Byte.to_N x) (Byte.to_N y)).
  destruct (N.compare (Byte.to_N x) (Byte.to_N y)); simpl; auto.
Qed.

Lemma bytes_Compare_gt_lt (a b : bytes) :
  bytes_Compare a b = Gt -> bytes_Compare b a = Lt.
Proof. intros H. now rewrite bytes_Compare_antisym, H. Qed.

Lemma bytes_Compare_lt_trans (a b c : bytes) :
  bytes_Compare a b = Lt -> bytes_Compare b c = Lt -> bytes_Compare a c = Lt.
Proof.
  revert b c; induction a as [|x a IH]; intros [|y b] [|z c]; simpl;
    try discriminate; try reflexivity.
  destruct (N.compare_spec (Byte.to_N x) (Byte.to_N y)) as [E1|L1|G1];
    try discriminate;
    destruct (N.compare_spec (Byte.to_N y) (Byte.to_N z)) as [E2|L2|G2];
    try discriminate; intros H1 H2.
  - rewrite E1, E2, N.compare_refl. eauto.
  - rewrite E1. now apply N.compare_lt_iff in L2 as ->.
  - rewrite <- E2. now apply N.compare_lt_iff in L1 as ->.
  - assert (L : (Byte.to_N x < Byte.to_N z)%N) by lia.
    now apply N.compare_lt_iff in L as ->.
Qed.

Lemma bytes_Compare_lt_neq (a b : bytes) : bytes_Compare a b = Lt -> a <> b.
Proof. intros H ->. rewrite bytes_Compare_refl in H. discriminate. Qed.

Lemma bytes_Equal_true (a b : bytes) : bytes_Equal a b = true <-> a = b.
Proof.
  unfold bytes_Equal. rewrite <- bytes_Compare_eq_iff.
  destruct (bytes_Compare a b); split; congruence.
Qed.

Lemma bytes_Equal_refl (a : bytes) : bytes_Equal a a = true.
Proof. now apply bytes_Equal_true. Qed.

Lemma bytes_Equal_false (a b : bytes) : bytes_Equal a b = false <-> a <> b.
Proof.
  rewrite <- bytes_Equal_true. destruct (bytes_Equal a b); split; congruence.
Qed.

Lemma string_of_bytes_of_string (s : string) :
  string_of_bytes (bytes_of_string s) = s.
Proof. apply string_of_list_byte_of_string. Qed.

Lemma bytes_of_string_of_bytes (b : bytes) :
  bytes_of_string (string_of_bytes b) = b.
Proof. apply list_byte_of_string_of_list_byte. Qed.

(** Go compares strings byte by byte: [string(k) != key] is false exactly
    when [k] holds the bytes of [key]. *)
Lemma string_eqb_bytes (k : bytes) (key : string) :
  String.eqb (string_of_bytes k) key = bytes_Equal k (bytes_of_string key).
Proof.
  destruct (bytes_Equal k (bytes_of_string key)) eqn:E.
  - apply bytes_Equal_true in E. subst k.
    rewrite string_of_bytes_of_string. apply String.eqb_refl.
  - apply bytes_Equal_false in E. apply String.eqb_neq. intros <-.
    apply E. now rewrite bytes_of_string_of_bytes.
Qed.

(** ** The engine's bucket operations *)

Module bbolt_facts.
Import bbolt.

(** [node.put], [node.del] and the element [Cursor.Seek] stops at, by
    cases on the first element. *)
Lemma node_put_nil (key val : bytes) : node_put key val [] = [(key, val)].
Proof. reflexivity. Qed.

Lemma node_put_cons (key val k v : bytes) (rest : Bucket) :
  node_put key val ((k, v) :: rest) =
  match bytes_Compare k key with
  | Lt => (k, v) :: node_put key val rest
  | Eq => (key, val) :: rest
  | Gt => (key, val) :: (k, v) :: rest
  end.
Proof.
  unfold node_put, exact, bytes_Equal; simpl.
  destruct (bytes_Compare k key) eqn:E; simpl; rewrite ?E; try reflexivity.
  destruct (nth_error rest (search key rest)) as [[k' v']|]; try reflexivity.
  destruct (bytes_Compare k' key); reflexivity.
Qed.

Lemma node_del_nil (key : bytes) : node_del key [] = [].
Proof. reflexivity. Qed.

Lemma node_del_cons (key k v : bytes) (rest : Bucket) :
  node_del key ((k, v) :: rest) =
  match bytes_Compare k key with
  | Lt => (k, v) :: node_del key rest
  | Eq => rest
  | Gt => (k, v) :: rest
  end.
Proof.
  unfold node_del, exact, bytes_Equal; simpl.
  destruct (bytes_Compare k key) eqn:E; simpl; rewrite ?E; try reflexivity.
  destruct (nth_error rest (search key rest)) as [[k' v']|]; try reflexivity.
  destruct (bytes_Compare k' key); reflexivity.
Qed.

Lemma seek_cons (key k v : bytes) (rest : Bucket) :
  nth_error ((k, v) :: rest) (search key ((k, v) :: rest)) =
  match bytes_Compare k key with
  | Lt => nth_error rest (search key rest)
  | _ => Some (k, v)
  end.
Proof. simpl. destruct (bytes_Compare k key); reflexivity. Qed.

(** Below the first key of an ordered bucket there is nothing. *)
Lemma above_trans (k k' : bytes) (l : Bucket) :
  bytes_Compare k k' = Lt ->
  forallb (above k') l = true -> forallb (above k) l = true.
Proof.
  intros L. induction l as [|e l IH]; simpl; [reflexivity|].
  rewrite !andb_true_iff. intros [A R]. split; [|auto].
  unfold above in *.
  destruct (bytes_Compare k' (fst e)) eqn:E; try discriminate.
  now rewrite (bytes_Compare_lt_trans _ _ _ L E).
Qed.

Lemma above_differs (k0 key k v : bytes) :
  above k0 (k, v) = true -> bytes_Compare k0 key <> Lt ->
  bytes_Equal k key = false.
Proof.
  unfold above; simpl. intros A N. apply bytes_Equal_false. intros ->.
  destruct (bytes_Compare k0 key); congruence.
Qed.

Lemma above_lookup (k0 key : bytes) (l : Bucket) :
  forallb (above k0) l = true -> bytes_Compare k0 key <> Lt ->
  lookup key l = None.
Proof.
  intros A N. induction l as [|[k v] l IH]; simpl in *; [reflexivity|].
  apply andb_true_iff in A as [A R].
  now rewrite (above_differs k0 key k v A N), IH.
Qed.


Lemma above_filter (k0 key : bytes) (l : Bucket) :
  forallb (above k0) l = true -> bytes_Compare k0 key <> Lt ->
  filter (fun e => negb (bytes_Equal (fst e) key)) l = l.
Proof.
  intros A N. induction l as [|[k v] l IH]; simpl in *; [reflexivity|].
  apply andb_true_iff in A as [A R].
  now rewrite (above_differs k0 key k v A N), IH.
Qed.

Ltac by_order k key :=
  destruct (bytes_Compare k key) eqn:?Ord;
  [ apply bytes_Compare_eq in Ord as ?Same
  | pose proof (bytes_Compare_lt_neq _ _ Ord) as ?Diff
  | pose proof (bytes_Compare_gt_lt _ _ Ord) as ?Rev ].

Lemma compare_eq_false (a b : bytes) :
  a <> b -> bytes_Equal a b = false.
Proof. apply bytes_Equal_false. Qed.

Lemma not_lt_of_eq (a : bytes) : bytes_Compare a a <> Lt.
Proof. now rewrite bytes_Compare_refl. Qed.

Lemma not_lt_of_gt (a b : bytes) :
  bytes_Compare a b = Gt -> bytes_Compare a b <> Lt.
Proof. congruence. Qed.

Create HintDb order.
#[local] Hint Resolve not_lt_of_eq not_lt_of_gt compare_eq_false : order.

(** The seek-and-compare test finds what an exact-match lookup finds. *)
Lemma seek_is_lookup (key : bytes) (b : Bucket) :
  ordered b = true ->
  match nth_error b (search key b) with
  | Some (k, v) => if bytes_Equal k key then Some v else None
  | None => None
  end = lookup key b.
Proof.
  induction b as [|[k v] rest IH]; intros O; [reflexivity|].
  simpl in O. apply andb_true_iff in O as [A O].
  rewrite seek_cons. simpl lookup. unfold bytes_Equal at 2.
  by_order k key.
  - subst. now rewrite bytes_Equal_refl.
  - auto.
  - unfold bytes_Equal. rewrite Ord. symmetry.
    apply (above_lookup k); auto with order.
Qed.

Lemma lookup_node_put (key val : bytes) (b : Bucket) :
  lookup key (node_put key val b) = Some val.
Proof.
  induction b as [|[k v] rest IH].
  - simpl. now rewrite bytes_Equal_refl.
  - rewrite node_put_cons. by_order k key; simpl;
      rewrite ?bytes_Equal_refl; try reflexivity.
    now rewrite (compare_eq_false _ _ Diff).
Qed.

Lemma lookup_node_put_other (key val key' : bytes) (b : Bucket) :
  key' <> key -> lookup key' (node_put key val b) = lookup key' b.
Proof.
  intros N. assert (F : bytes_Equal key key' = false)
    by (apply bytes_Equal_false; congruence).
  induction b as [|[k v] rest IH].
  - simpl. now rewrite F.
  - rewrite node_put_cons. by_order k key; simpl; rewrite ?F.
    + subst. now rewrite F.
    + now rewrite IH.
    + reflexivity.
Qed.

Lemma forallb_node_put (P : inode -> bool) (key val : bytes) (b : Bucket) :
  P (key, val) = true -> forallb P b = true ->
  forallb P (node_put key val b) = true.
Proof.
  intros Pk. induction b as [|[k v] rest IH]; simpl.
  - now rewrite Pk.
  - rewrite node_put_cons, andb_true_iff. intros [Pe Pr].
    destruct (bytes_Compare k key); simpl; rewrite ?Pk, ?Pe, ?Pr; auto.
Qed.

Lemma ordered_node_put (key val : bytes) (b : Bucket) :
  ordered b = true -> ordered (node_put key val b) = true.
Proof.
  induction b as [|[k v] rest IH]; intros O; [reflexivity|].
  simpl in O. apply andb_true_iff in O as [A O].
  rewrite node_put_cons. by_order k key; simpl.
  - subst. now rewrite A, O.
  - rewrite IH by assumption. rewrite forallb_node_put; auto.
    unfold above; simpl. now rewrite Ord.
  - unfold above at 1; simpl. rewrite Rev, A, O.
    now rewrite (above_trans key k rest Rev A).
Qed.


(** On an ordered bucket [node.del] is the removal of the key. *)
Lemma node_del_filter (key : bytes) (b : Bucket) :
  ordered b = true ->
  node_del key b = filter (fun e => negb (bytes_Equal (fst e) key)) b.
Proof.
  induction b as [|[k v] rest IH]; intros O; [reflexivity|].
  simpl in O. apply andb_true_iff in O as [A O].
  rewrite node_del_cons. simpl. unfold bytes_Equal at 1.
  by_order k key; simpl.
  - subst. symmetry. apply (above_filter key); auto with order.
  - now rewrite IH.
  - f_equal. symmetry. apply (above_filter k); auto with order.
Qed.

Lemma lookup_filter_same (key : bytes) (b : Bucket) :
  lookup key (filter (fun e => negb (bytes_Equal (fst e) key)) b) = None.
Proof.
  induction b as [|[k v] rest IH]; simpl; [reflexivity|].
  destruct (bytes_Equal k key) eqn:E; simpl; [assumption|].
  now rewrite E.
Qed.

Lemma lookup_filter_other (key key' : bytes) (b : Bucket) :
  key' <> key ->
  lookup key' (filter (fun e => negb (bytes_Equal (fst e) key)) b) =
  lookup key' b.
Proof.
  intros N. induction b as [|[k v] rest IH]; simpl; [reflexivity|].
  destruct (bytes_Equal k key) eqn:E; simpl.
  - apply bytes_Equal_true in E. subst k.
    rewrite (compare_eq_false key key') by congruence. assumption.
  - now rewrite IH.
Qed.

Lemma filter_absent (key : bytes) (b : Bucket) :
  lookup key b = None ->
  filter (fun e => negb (bytes_Equal (fst e) key)) b = b.
Proof.
  induction b as [|[k v] rest IH]; simpl; [reflexivity|].
  destruct (bytes_Equal k key); [discriminate|]. simpl. intros H.
  now rewrite IH.
Qed.

Lemma forallb_filter_keep {A : Type} (P Q : A -> bool) (l : list A) :
  forallb P l = true -> forallb P (filter Q l) = true.
Proof.
  induction l as [|x l IH]; simpl; [reflexivity|].
  rewrite andb_true_iff. intros [Px Pl].
  destruct (Q x); simpl; rewrite ?Px; auto.
Qed.

Lemma ordered_filter (Q : inode -> bool) (b : Bucket) :
  ordered b = true -> ordered (filter Q b) = true.
Proof.
  induction b as [|e rest IH]; simpl; [reflexivity|].
  rewrite andb_true_iff. intros [A O].
  destruct (Q e); simpl; auto.
  now rewrite (forallb_filter_keep _ Q rest A), IH.
Qed.

(** Buckets of a database. *)
Lemma find_write_bucket (name : bytes) (b b0 : Bucket) (d : DB) :
  find_bucket name d = Some b0 ->
  find_bucket name (write_bucket name b d) = Some b.
Proof.
  induction d as [|[n b1] rest IH]; simpl; [discriminate|].
  destruct (bytes_Equal n name) eqn:E; simpl; rewrite E; auto.
Qed.

Lemma find_bucket_app_new (name : bytes) (b : Bucket) (d : DB) :
  find_bucket name d = None ->
  find_bucket name (d ++ [(name, b)]) = Some b.
Proof.
  induction d as [|[n b1] rest IH]; simpl.
  - now rewrite bytes_Equal_refl.
  - destruct (bytes_Equal n name); [discriminate | auto].
Qed.

Lemma find_bucket_ordered (name : bytes) (b : Bucket) (d : DB) :
  well_formed d = true -> find_bucket name d = Some b -> ordered b = true.
Proof.
  unfold well_formed.
  induction d as [|[n b1] rest IH]; simpl; [discriminate|].
  rewrite andb_true_iff. intros [O W].
  destruct (bytes_Equal n name); [intros [= <-]; assumption | auto].
Qed.

(** Transactions. *)
Lemma DB_Update_failed {A : Type} (d : DB) (fn : Tx -> Ret Tx A) :
  result (DB_Update d fn) <> returns_nil -> state (DB_Update d fn) = d.
Proof.
  unfold DB_Update. destruct (fn (mkTx d true)) as [tx res o tr]. cbn.
  destruct res as [[e|]|]; cbn; intros N; try reflexivity. now elim N.
Qed.

Lemma DB_View_state {A : Type} (d : DB) (fn : Tx -> Ret Tx A) :
  state (DB_View d fn) = d.
Proof. reflexivity. Qed.

End bbolt_facts.

(** ** The store's operations on its collection *)

Section StoreFacts.
Import bbolt bbolt_facts.

Context {V T : Type} `{G : Gob V T}.

Lemma store_ok_bucket (s : Store) :
  store_ok s = true ->
  find_bucket (bucketName s) (db s) = Some (collection s)
  /\ ordered (collection s) = true.
Proof.
  unfold store_ok, collection.
  destruct (find_bucket (bucketName s) (db s)); [auto | discriminate].
Qed.

Lemma same_store (s : Store) : mkStore (db s) (bucketName s) = s.
Proof. now destruct s. Qed.

(** [Get] runs in [View]: the store it leaves is the store it found. *)
Lemma Get_state (s : Store) (key : string) (value : option T) :
  state (Get s key value) = s.
Proof. unfold Get, DB_View; simpl. apply same_store. Qed.

Lemma Get_bucketName (s : Store) (key : string) (value : option T) :
  bucketName (state (Get s key value)) = bucketName s.
Proof. reflexivity. Qed.

Lemma Put_bucketName (s : Store) (key : string) (value : option V) :
  bucketName (state (Put s key value)) = bucketName s.
Proof.
  unfold Put. destruct value as [v|]; [|reflexivity].
  destruct (Encode v); reflexivity.
Qed.

Lemma Delete_bucketName (s : Store) (key : string) :
  bucketName (state (Delete s key)) = bucketName s.
Proof. reflexivity. Qed.

(** What [Get] answers is what the direct lookup answers. *)
Lemma Get_is_direct (s : Store) (key : string) (value : option T) :
  store_ok s = true ->
  (result (Get s key value), out (Get s key value)) = Get_direct s key value.
Proof.
  intros Ok. destruct (store_ok_bucket s Ok) as [F O].
  unfold Get_direct. rewrite <- (seek_is_lookup _ _ O).
  unfold Get, DB_View, Tx_Bucket, Bucket_Cursor, Cursor_Seek, elements.
  cbn. rewrite F. cbn. rewrite F.
  destruct (nth_error (collection s)
              (search (bytes_of_string key) (collection s))) as [[k v]|];
    [|reflexivity].
  rewrite string_eqb_bytes.
  destruct (bytes_Equal k (bytes_of_string key)); cbn; [|reflexivity].
  destruct value as [dest|]; [|reflexivity].
  destruct (Decode v dest); reflexivity.
Qed.

(** The decoder runs only for a destination that is not nil. *)
Lemma Get_nil_trace (s : Store) (key : string) :
  trace (Get s key (@None T)) = [EvBegin false; EvRollback].
Proof.
  unfold Get, DB_View. cbn.
  destruct (Bucket_Cursor _) as [c|]; [|reflexivity].
  destruct (nth_error _ _) as [[k v]|]; [|reflexivity].
  destruct (negb _); reflexivity.
Qed.

(** A [Put] that does not return nil leaves the store as it was. *)
Lemma Put_failed_state (s : Store) (key : string) (value : option V) :
  result (Put s key value) <> returns_nil -> state (Put s key value) = s.
Proof.
  unfold Put. destruct value as [v|]; [|reflexivity].
  destruct (Encode v) as [err|buf]; [reflexivity|].
  cbn [state result]. intros N.
  rewrite (DB_Update_failed _ _ N). apply same_store.
Qed.

(** A [Put] that the engine takes writes the encoding under the key. *)
Lemma Put_stores (s : Store) (key : string) (v : V) (buf : bytes) :
  store_ok s = true -> Encode v = inr buf ->
  key_taken key = true -> value_taken buf = true ->
  result (Put s key (Some v)) = returns_nil
  /\ collection (state (Put s key (Some v))) =
     node_put (bytes_of_string key) buf (collection s)
  /\ store_ok (state (Put s key (Some v))) = true
  /\ trace (Put s key (Some v)) = [EvEncode; EvBegin true; EvCommit].
Proof.
  intros Ok E K L. destruct (store_ok_bucket s Ok) as [F O].
  unfold key_taken in K. apply andb_true_iff in K as [K1 K2].
  apply negb_true_iff in K1, K2. apply negb_true_iff in L.
  unfold Put. rewrite E.
  unfold DB_Update, Bucket_Put, Tx_Bucket, elements. cbn.
  rewrite F. cbn. rewrite K1, K2, L. cbn. rewrite F.
  unfold collection, store_ok. cbn.
  rewrite (find_write_bucket _ _ _ _ F).
  repeat split; try reflexivity.
  now apply ordered_node_put.
Qed.

(** What the engine refuses. *)
Lemma Put_refused (s : Store) (key : string) (v : V) (buf : bytes) :
  store_ok s = true -> Encode v = inr buf ->
  result (Put s key (Some v)) =
    if (len (bytes_of_string key) =? 0)%Z then fails ErrKeyRequired
    else if (len (bytes_of_string key) >? MaxKeySize)%Z
         then fails ErrKeyTooLarge
    else if (len buf >? MaxValueSize)%Z then fails ErrValueTooLarge
    else returns_nil.
Proof.
  intros Ok E. destruct (store_ok_bucket s Ok) as [F O].
  unfold Put. rewrite E.
  unfold DB_Update, Bucket_Put, Tx_Bucket, elements. cbn.
  rewrite F. cbn.
  destruct (len (bytes_of_string key) =? 0)%Z; [reflexivity|].
  destruct (len (bytes_of_string key) >? MaxKeySize)%Z; [reflexivity|].
  destruct (len buf >? MaxValueSize)%Z; reflexivity.
Qed.

End StoreFacts.

Section DeleteFacts.
Import bbolt bbolt_facts.

(** What [Delete] answers and leaves is what the direct removal does. *)
Lemma Delete_is_direct (s : Store) (key : string) :
  store_ok s = true ->
  result (Delete s key) = fst (Delete_direct s key)
  /\ collection (state (Delete s key)) = snd (Delete_direct s key)
  /\ store_ok (state (Delete s key)) = true.
Proof.
  intros Ok. destruct (store_ok_bucket s Ok) as [F O].
  unfold Delete_direct. rewrite <- (seek_is_lookup _ _ O).
  unfold Delete, DB_Update, Tx_Bucket, Bucket_Cursor, Cursor_Seek,
    Cursor_Delete, elements.
  cbn. rewrite F. cbn. rewrite F.
  destruct (nth_error (collection s)
              (search (bytes_of_string key) (collection s)))
    as [[k v]|] eqn:S; cbn.
  - rewrite string_eqb_bytes.
    destruct (bytes_Equal k (bytes_of_string key)) eqn:E; cbn.
    + apply bytes_Equal_true in E. subst k.
      unfold collection at 1, store_ok. cbn.
      rewrite (find_write_bucket _ _ _ _ F).
      rewrite (node_del_filter _ _ O).
      repeat split. now apply ordered_filter.
    + rewrite same_store. auto.
  - rewrite same_store. auto.
Qed.

(** A [Delete] that does not return nil leaves the store as it was. *)
Lemma Delete_failed_state (s : Store) (key : string) :
  result (Delete s key) <> returns_nil -> state (Delete s key) = s.
Proof.
  unfold Delete. cbn [state result]. intros N.
  rewrite (DB_Update_failed _ _ N). apply same_store.
Qed.

End DeleteFacts.

(** ** Opening a store, and the invariant along its life *)

Section Invariant.
Import bbolt bbolt_facts.

Context {V T : Type} `{G : Gob V T}.

Lemma Open_store (file : error + DB) (name : string) (s : Store) :
  fst (Open file name) = Some s ->
  exists d, file = inr d
    /\ bucketName s = bytes_of_string name
    /\ ((exists b, find_bucket (bytes_of_string name) d = Some b
                   /\ db s = d)
        \/ (find_bucket (bytes_of_string name) d = None
            /\ db s = d ++ [(bytes_of_string name, [])])).
Proof.
  unfold Open. destruct file as [err|d]; [discriminate|].
  unfold DB_Update, Tx_CreateBucketIfNotExists. cbn.
  destruct (len (bytes_of_string name) =? 0)%Z; [discriminate|].
  destruct (find_bucket (bytes_of_string name) d) as [b|] eqn:F; cbn;
    intros [= <-]; exists d; cbn; repeat split; eauto.
Qed.

(** A store opened on a well-formed file satisfies the invariant. *)
Lemma Open_store_ok (d : DB) (name : string) (s : Store) :
  well_formed d = true -> fst (Open (inr d) name) = Some s ->
  store_ok s = true.
Proof.
  intros W H. apply Open_store in H as (d' & [= <-] & N & D).
  unfold store_ok. rewrite N.
  destruct D as [(b & F & ->) | (F & ->)].
  - rewrite F. apply (find_bucket_ordered _ _ _ W F).
  - now rewrite (find_bucket_app_new _ _ _ F).
Qed.

(** A key that is not in the collection is reported by both calls. *)
Lemma absent_reported (s : Store) (key : string) :
  store_ok s = true -> present s key = false ->
  (forall value : option T, result (Get s key value) = fails ErrNotFound)
  /\ result (Delete s key) = fails ErrNotFound.
Proof.
  intros Ok. unfold present.
  destruct (Delete_is_direct s key Ok) as (DR & _).
  unfold Delete_direct in DR.
  destruct (lookup (bytes_of_string key) (collection s)) eqn:Lk;
    [discriminate|].
  intros _. split; [|assumption].
  intros value. pose proof (Get_is_direct s key value Ok) as D.
  unfold Get_direct in D. rewrite Lk in D.
  now apply pair_equal_spec in D as [D _].
Qed.

(** A new file has nothing under any key. *)
Lemma new_file_empty (name key : string) (s : Store) :
  fst (Open (inr []) name) = Some s -> present s key = false.
Proof.
  intros H.
  apply Open_store in H as (d & [= <-] & N & [(b & F & _) | (_ & D)]);
    [discriminate|].
  unfold present, collection. rewrite N, D. cbn.
  now rewrite bytes_Equal_refl.
Qed.

(** Every call keeps the invariant. *)
Lemma Put_keeps_ok (s : Store) (key : string) (value : option V) :
  store_ok s = true -> store_ok (state (Put s key value)) = true.
Proof.
  intros Ok. destruct value as [v|]; [|assumption].
  destruct (Encode v) as [err|buf] eqn:E.
  - unfold Put. now rewrite E.
  - destruct (key_taken key) eqn:K, (value_taken buf) eqn:L;
      try (now apply (Put_stores s key v buf Ok E K L));
      rewrite Put_failed_state; auto;
      rewrite (Put_refused s key v buf Ok E);
      unfold key_taken, value_taken in *;
      destruct (len (bytes_of_string key) =? 0)%Z; try discriminate;
      destruct (len (bytes_of_string key) >? MaxKeySize)%Z; try discriminate;
      destruct (len buf >? MaxValueSize)%Z; discriminate.
Qed.

Lemma after_keeps_ok (s : Store) (c : call) :
  store_ok s = true -> store_ok (after s c) = true.
Proof.
  intros Ok. destruct c as [key value|key value|key]; cbn [after].
  - now apply Put_keeps_ok.
  - now rewrite Get_state.
  - now apply Delete_is_direct.
Qed.


End Invariant.

(** ** The sample codec and stores *)

Module SampleFacts.
Import Sample.


Lemma fresh_ok : store_ok fresh = true.
Proof. reflexivity. Qed.

Lemma three_ok : store_ok three = true.
Proof. reflexivity. Qed.

(** The comment on [Put] allows the empty key; the engine does not take
    it, and nothing is stored under it. *)
Lemma Put_empty_key :
  result (Put fresh "" (Some (Str "v"))) = fails ErrKeyRequired
  /\ result (Get (state (Put fresh "" (Some (Str "v")))) "" (Some PtrStr))
     = fails ErrNotFound.
Proof. split; reflexivity. Qed.

(** A key that is a proper prefix of a stored key is not found, though the
    cursor stops on the longer key. *)
Lemma prefix_not_found :
  snd (bbolt.Cursor_Seek (bbolt.mkTx (db three) false)
         (bbolt.mkCursor (bucketName three) 0) (bytes_of_string "alph"))
  = Some (bytes_of_string "alpha", ["b"; "1"]%byte)
  /\ result (Get three "alph" (Some PtrBool)) = fails ErrNotFound.
Proof. split; reflexivity. Qed.

(** Key order is what the seek relies on: in a bucket out of order a key
    that is there is missed. *)
Lemma unordered_misses :
  let s := mkStore [(bytes_of_string "kv",
                     [(bytes_of_string "b", ["b"; "1"]%byte);
                      (bytes_of_string "a", ["b"; "0"]%byte)])]
                   (bytes_of_string "kv") in
  store_ok s = false
  /\ present s "a" = true
  /\ result (Get s "a" (Some PtrBool)) = fails ErrNotFound.
Proof. repeat split; reflexivity. Qed.

End SampleFacts.

(** * The properties *)

Section Properties.
Import bbolt bbolt_facts.

Context {V T : Type} `{G : Gob V T}.

(** Both components of an equation between pairs. *)
Ltac components D :=
  let A := fresh "A" in let B := fresh "B" in
  apply pair_equal_spec in D as [A B]; try rewrite A; try rewrite B;
  repeat split; auto; try discriminate.


(** C2.  On an open store, a key that is not in the collection makes
    [Get], whatever the destination, and [Delete] return ErrNotFound; a
    key that is in it makes neither return ErrNotFound.  The key is not
    in the collection, and both calls return ErrNotFound, after a
    [Delete] of it has returned nil and on a store opened on a new
    file. *)
Theorem not_found_iff_absent (s : Store) (key : string) :
  store_ok s = true ->
  (present s key = false ->
     (forall value : option T,
        result (Get s key value) = fails ErrNotFound)
     /\ result (Delete s key) = fails ErrNotFound)
  /\ (present s key = true ->
        (forall value : option T,
           result (Get s key value) <> fails ErrNotFound)
        /\ result (Delete s key) <> fails ErrNotFound)
  /\ (result (Delete s key) = returns_nil ->
        present (state (Delete s key)) key = false
        /\ (forall value : option T,
              result (Get (state (Delete s key)) key value)
              = fails ErrNotFound)
        /\ result (Delete (state (Delete s key)) key) = fails ErrNotFound)
  /\ (forall (name : string) (s0 : Store),
        fst (Open (inr []) name) = Some s0 ->
        present s0 key = false
        /\ (forall value : option T,
              result (Get s0 key value) = fails ErrNotFound)
        /\ result (Delete s0 key) = fails ErrNotFound).
Proof.
  intros Ok.
  destruct (Delete_is_direct s key Ok) as (DR & DC & Ok').
  assert (GD : forall value : option T,
             (result (Get s key value), out (Get s key value))
             = Get_direct s key value)
    by (intros value; now apply Get_is_direct).
  unfold Delete_direct in DR, DC. unfold Get_direct in GD.
  split; [|split; [|split]].
  - now apply absent_reported.
  - unfold present.
    destruct (lookup (bytes_of_string key) (collection s)) as [v|];
      [|discriminate].
    intros _. split; [|rewrite DR; discriminate].
    intros value. specialize (GD value).
    destruct value as [dest|]; [destruct (Decode v dest)|];
      components GD.
  - intros Done.
    assert (Gone : present (state (Delete s key)) key = false).
    { unfold present.
      destruct (lookup (bytes_of_string key) (collection s));
        cbn [fst snd] in DR, DC; [|rewrite DR in Done; discriminate].
      now rewrite DC, lookup_filter_same. }
    split; [assumption|]. now apply absent_reported.
  - intros name s0 H.
    pose proof (new_file_empty name key s0 H) as Gone.
    split; [assumption|]. apply absent_reported; [|assumption].
    now apply (Open_store_ok [] name).
Qed.

(** C3.  On an open store, [Get] with its seek to the first key not
    below the one asked for and its test for an exact match answers what
    the direct exact-match lookup in the mapping answers, and [Delete]
    with the same seek answers and leaves what the direct removal does;
    when the cursor stops on another key, [Get] returns ErrNotFound and
    hands out nothing. *)
Theorem seek_refines_lookup (s : Store) (key : string)
    (value : option T) :
  store_ok s = true ->
  (result (Get s key value), out (Get s key value)) = Get_direct s key value
  /\ (result (Delete s key), collection (state (Delete s key)))
     = Delete_direct s key
  /\ (forall k v : bytes,
        snd (Cursor_Seek (mkTx (db s) false) (mkCursor (bucketName s) 0)
               (bytes_of_string key)) = Some (k, v) ->
        k <> bytes_of_string key ->
        result (Get s key value) = fails ErrNotFound
        /\ out (Get s key value) = None).
Proof.
  intros Ok.
  pose proof (Get_is_direct s key value Ok) as D.
  destruct (Delete_is_direct s key Ok) as (DR & DC & _).
  split; [assumption|]. split.
  - rewrite DR, DC. now destruct (Delete_direct s key).
  - intros k v S N. destruct (store_ok_bucket s Ok) as [F O].
    unfold Cursor_Seek, elements in S. cbn in S. rewrite F in S.
    unfold Get_direct in D. rewrite <- (seek_is_lookup _ _ O), S in D.
    apply bytes_Equal_false in N. rewrite N in D. components D.
Qed.

(** C4.  [Put(k, nil)] returns ErrBadValue without a call to the encoder
    or to the engine, and the store is as it was: a [Get] afterwards
    answers what it answered before. *)
Theorem Put_nil_is_bad_value (s : Store) (key : string) :
  result (Put s key (@None V)) = fails ErrBadValue
  /\ trace (Put s key (@None V)) = []
  /\ state (Put s key (@None V)) = s
  /\ (forall (k : string) (value : option T),
        Get (state (Put s key (@None V))) k value = Get s k value).
Proof. repeat split. Qed.


(** C6.  On an open store, [Get] with a nil destination returns nil when
    the key is in the collection and ErrNotFound when it is not, so the
    test for the key comes before the test for nil; in both cases the
    decoder is not called. *)
Theorem Get_nil_checks_existence (s : Store) (key : string) :
  store_ok s = true ->
  (present s key = true -> result (Get s key (@None T)) = returns_nil)
  /\ (present s key = false ->
        result (Get s key (@None T)) = fails ErrNotFound)
  /\ ~ In EvDecode (trace (Get s key (@None T))).
Proof.
  intros Ok.
  pose proof (Get_is_direct s key None Ok) as D.
  unfold Get_direct in D. unfold present.
  destruct (lookup (bytes_of_string key) (collection s)); components D.
  all: rewrite Get_nil_trace; cbn; intros [X|[X|[]]]; discriminate.
Qed.

(** C7.  On an open store, [Delete] of a key that is in the collection
    returns nil and takes away the entries with that key and no other:
    a [Get] of the key then returns ErrNotFound and a [Get] of any other
    key answers what it answered before.  A [Delete] that returns
    ErrNotFound leaves the store as it was. *)
Theorem Delete_removes_one (s : Store) (key : string) :
  store_ok s = true ->
  (present s key = true ->
     result (Delete s key) = returns_nil
     /\ collection (state (Delete s key))
        = filter (fun e => negb (bytes_Equal (fst e) (bytes_of_string key)))
                 (collection s)
     /\ (forall value : option T,
           result (Get (state (Delete s key)) key value)
           = fails ErrNotFound)
     /\ (forall (key' : string) (value : option T),
           key' <> key ->
           lookup (bytes_of_string key') (collection (state (Delete s key)))
           = lookup (bytes_of_string key') (collection s)
           /\ result (Get (state (Delete s key)) key' value)
              = result (Get s key' value)
           /\ out (Get (state (Delete s key)) key' value)
              = out (Get s key' value)))
  /\ (result (Delete s key) = fails ErrNotFound ->
        state (Delete s key) = s).
Proof.
  intros Ok.
  destruct (Delete_is_direct s key Ok) as (DR & DC & Ok').
  unfold Delete_direct in DR, DC. unfold present. split.
  - destruct (lookup (bytes_of_string key) (collection s)); [|discriminate].
    cbn [fst snd] in DR, DC. intros _.
    split; [assumption|]. split; [assumption|]. split.
    + intros value.
      pose proof (Get_is_direct _ key value Ok') as D.
      unfold Get_direct in D. rewrite DC, lookup_filter_same in D.
      components D.
    + intros key' value Other.
      assert (N : bytes_of_string key' <> bytes_of_string key).
      { intros E. apply Other.
        now rewrite <- (string_of_bytes_of_string key'), E,
          string_of_bytes_of_string. }
      pose proof (Get_is_direct _ key' value Ok') as D1.
      pose proof (Get_is_direct s key' value Ok) as D2.
      unfold Get_direct in D1, D2.
      rewrite DC, (lookup_filter_other _ _ _ N), <- D2 in D1.
      rewrite DC. split; [now apply lookup_filter_other|].
      components D1.
  - intros N. apply Delete_failed_state. rewrite N. discriminate.
Qed.

(** C8.  When the encoder fails, [Put] returns the encoder's error as it
    is, starts no transaction, and leaves the store as it was. *)
Theorem Put_encode_error (s : Store) (key : string) (v : V)
    (err : string) :
  Encode v = inl err ->
  result (Put s key (Some v)) = fails (GobError err)
  /\ trace (Put s key (Some v)) = [EvEncode]
  /\ (forall w : bool, ~ In (EvBegin w) (trace (Put s key (Some v))))
  /\ state (Put s key (Some v)) = s.
Proof.
  intros E. unfold Put. rewrite E. cbn. repeat split.
  intros w [X|[]]. discriminate.
Qed.

(** C9.  A store that [Open] returns has as bucket name the bytes of the
    name given to [Open], and it keeps that name through every sequence
    of [Put], [Get] and [Delete]. *)
Theorem GetBucketName_is_fixed (file : error + DB) (name : string)
    (s : Store) (calls : list call) :
  fst (Open file name) = Some s ->
  GetBucketName s = bytes_of_string name
  /\ GetBucketName (run s calls) = bytes_of_string name.
Proof.
  intros H. apply Open_store in H as (d & _ & N & _).
  unfold GetBucketName. split; [assumption|].
  rewrite <- N. clear N. unfold run. revert s.
  induction calls as [|c calls IH]; intros s; [reflexivity|].
  cbn. rewrite IH.
  destruct c as [key value|key value|key]; cbn [after].
  - apply Put_bucketName.
  - apply Get_bucketName.
  - apply Delete_bucketName.
Qed.

(** C10.  [Get] leaves the store as it was, for every key and every
    destination and however it ends; the mapping of the collection is the
    same before and after. *)
Theorem Get_reads_only (s : Store) (key : string) (value : option T) :
  state (Get s key value) = s
  /\ db (state (Get s key value)) = db s
  /\ collection (state (Get s key value)) = collection s.
Proof. rewrite Get_state. repeat split. Qed.

End Properties.

(** * The properties on the sample stores *)

Module Runs.
Import Sample SampleFacts.



Lemma not_found_iff_absent_run :
  store_ok three = true
  /\ (present three "zeta" = false
      /\ result (Get three "zeta" (Some PtrStr)) = fails ErrNotFound
      /\ result (Delete three "zeta") = fails ErrNotFound)
  /\ (present three "beta" = true
      /\ result (Get three "beta" (Some PtrBool)) <> fails ErrNotFound
      /\ result (Delete three "beta") <> fails ErrNotFound).
Proof.
  destruct (not_found_iff_absent (T := ptr) three "zeta" eq_refl)
    as (Absent & _).
  destruct (not_found_iff_absent (T := ptr) three "beta" eq_refl)
    as (_ & Present & _).
  destruct (Absent eq_refl) as [A1 A2].
  destruct (Present eq_refl) as [P1 P2].
  repeat split; auto.
Defined.

Lemma seek_refines_lookup_run :
  store_ok three = true
  /\ (result (Get three "alph" (Some PtrBool)),
      out (Get three "alph" (Some PtrBool)))
     = Get_direct three "alph" (Some PtrBool)
  /\ (result (Delete three "alph"), collection (state (Delete three "alph")))
     = Delete_direct three "alph".
Proof.
  destruct (seek_refines_lookup three "alph" (Some PtrBool) eq_refl)
    as (A & B & _).
  repeat split; assumption.
Defined.



Lemma Get_nil_checks_existence_run :
  store_ok three = true
  /\ (present three "alpha" = true
      /\ result (Get three "alpha" (@None ptr)) = returns_nil)
  /\ (present three "alph" = false
      /\ result (Get three "alph" (@None ptr)) = fails ErrNotFound)
  /\ ~ In EvDecode (trace (Get three "alpha" (@None ptr))).
Proof.
  destruct (Get_nil_checks_existence (T := ptr) three "alpha" eq_refl)
    as (Found & _ & Quiet).
  destruct (Get_nil_checks_existence (T := ptr) three "alph" eq_refl)
    as (_ & Missing & _).
  repeat split; auto.
Defined.

Lemma Delete_removes_one_run :
  store_ok three = true
  /\ present three "alpha" = true
  /\ result (Delete three "alpha") = returns_nil
  /\ result (Get (state (Delete three "alpha")) "alpha" (Some PtrBool))
     = fails ErrNotFound
  /\ out (Get (state (Delete three "alpha")) "alphabet" (Some PtrStr))
     = out (Get three "alphabet" (Some PtrStr)).
Proof.
  destruct (Delete_removes_one (T := ptr) three "alpha" eq_refl)
    as (Present & _).
  destruct (Present eq_refl) as (R & _ & Gone & Others).
  destruct (Others "alphabet"%string (Some PtrStr)) as (_ & _ & Same);
    [discriminate|].
  repeat split; auto.
Defined.

Lemma Put_encode_error_run :
  Encode Chan = inl "gob: unsupported type"%string
  /\ result (Put three "delta" (Some Chan))
     = fails (GobError "gob: unsupported type")
  /\ trace (Put three "delta" (Some Chan)) = [EvEncode]
  /\ state (Put three "delta" (Some Chan)) = three.
Proof.
  destruct (Put_encode_error (G := gob) three "delta" Chan
              "gob: unsupported type" eq_refl) as (R & Tr & _ & St).
  repeat split; assumption.
Defined.

Lemma GetBucketName_is_fixed_run :
  fst (Open (inr []) "kv") = Some fresh
  /\ GetBucketName fresh = bytes_of_string "kv"
  /\ GetBucketName
       (run fresh [CallPut "a" (Some (Str "x")); CallGet "a" (Some PtrBool);
                   CallDelete "a"; CallPut "" None])
     = bytes_of_string "kv".
Proof.
  split; [reflexivity|].
  apply (GetBucketName_is_fixed (inr []) "kv" fresh); reflexivity.
Defined.

End Runs.

(** * More of the package: buckets, transactions and whole stores *)

Module bucket_facts.
Import bbolt bbolt_facts.

(** An ordered bucket is fixed by what a lookup finds in it. *)
Lemma lookup_head (k v : bytes) (rest : Bucket) :
  lookup k ((k, v) :: rest) = Some v.
Proof. simpl. now rewrite bytes_Equal_refl. Qed.

Lemma ordered_ext (b1 b2 : Bucket) :
  ordered b1 = true -> ordered b2 = true ->
  (forall k, lookup k b1 = lookup k b2) -> b1 = b2.
Proof.
  revert b2. induction b1 as [|[k1 v1] r1 IH]; intros [|[k2 v2] r2] O1 O2 Same.
  - reflexivity.
  - specialize (Same k2). rewrite lookup_head in Same. discriminate.
  - specialize (Same k1). rewrite lookup_head in Same. discriminate.
  - simpl in O1, O2.
    apply andb_true_iff in O1 as [A1 O1]. apply andb_true_iff in O2 as [A2 O2].
    destruct (bytes_Compare k1 k2) eqn:C.
    + apply bytes_Compare_eq in C. subst k2.
      pose proof (Same k1) as Head. rewrite !lookup_head in Head.
      injection Head as ->. f_equal. apply IH; try assumption.
      intros k. specialize (Same k). simpl in Same.
      destruct (bytes_Equal k1 k) eqn:E; [|assumption].
      apply bytes_Equal_true in E. subst k.
      rewrite (above_lookup k1 k1 r1 A1), (above_lookup k1 k1 r2 A2);
        auto using not_lt_of_eq.
    + exfalso. specialize (Same k1). rewrite lookup_head in Same.
      simpl in Same.
      rewrite (compare_eq_false k2 k1) in Same
        by (intros ->; rewrite bytes_Compare_refl in C; discriminate).
      rewrite (above_lookup k2 k1 r2 A2) in Same; [discriminate|].
      rewrite bytes_Compare_antisym, C. discriminate.
    + exfalso. specialize (Same k2). rewrite lookup_head in Same.
      simpl in Same.
      rewrite (compare_eq_false k1 k2) in Same
        by (intros ->; rewrite bytes_Compare_refl in C; discriminate).
      rewrite (above_lookup k1 k2 r1 A1) in Same; [discriminate|].
      rewrite C. discriminate.
Qed.

(** The number of elements. *)
Lemma length_node_put (key val : bytes) (b : Bucket) :
  ordered b = true ->
  List.length (node_put key val b) =
  match lookup key b with
  | Some _ => List.length b
  | None => S (List.length b)
  end.
Proof.
  induction b as [|[k v] rest IH]; intros O; [reflexivity|].
  simpl in O. apply andb_true_iff in O as [A O].
  rewrite node_put_cons. simpl lookup. unfold bytes_Equal.
  destruct (bytes_Compare k key) eqn:C; simpl.
  - reflexivity.
  - rewrite (IH O). now destruct (lookup key rest).
  - rewrite (above_lookup k key rest A); [reflexivity|].
    rewrite C. discriminate.
Qed.

Lemma length_node_del (key : bytes) (b : Bucket) :
  ordered b = true ->
  List.length b =
  match lookup key b with
  | Some _ => S (List.length (node_del key b))
  | None => List.length (node_del key b)
  end.
Proof.
  induction b as [|[k v] rest IH]; intros O; [reflexivity|].
  simpl in O. apply andb_true_iff in O as [A O].
  rewrite node_del_cons. simpl lookup. unfold bytes_Equal.
  destruct (bytes_Compare k key) eqn:C; simpl.
  - reflexivity.
  - rewrite (IH O). now destruct (lookup key rest).
  - rewrite (above_lookup k key rest A); [reflexivity|].
    rewrite C. discriminate.
Qed.

(** Buckets of a database, by name. *)
Lemma find_write_other (name n : bytes) (b : Bucket) (d : DB) :
  n <> name -> find_bucket n (write_bucket name b d) = find_bucket n d.
Proof.
  intros N. induction d as [|[n0 b0] rest IH]; simpl; [reflexivity|].
  destruct (bytes_Equal n0 name) eqn:E; simpl.
  - apply bytes_Equal_true in E. subst n0.
    now rewrite (compare_eq_false name n) by congruence.
  - now rewrite IH.
Qed.


Lemma write_bucket_same (name : bytes) (b : Bucket) (d : DB) :
  find_bucket name d = Some b -> write_bucket name b d = d.
Proof.
  induction d as [|[n0 b0] rest IH]; simpl; [reflexivity|].
  destruct (bytes_Equal n0 name); [intros [= ->]; reflexivity|].
  intros F. now rewrite IH.
Qed.

Lemma write_bucket_twice (name : bytes) (b1 b2 : Bucket) (d : DB) :
  write_bucket name b2 (write_bucket name b1 d) = write_bucket name b2 d.
Proof.
  induction d as [|[n0 b0] rest IH]; simpl; [reflexivity|].
  destruct (bytes_Equal n0 name) eqn:E; simpl; rewrite E;
    [reflexivity | now rewrite IH].
Qed.

Lemma find_app_old (n name : bytes) (b b0 : Bucket) (d : DB) :
  find_bucket n d = Some b0 ->
  find_bucket n (d ++ [(name, b)]) = Some b0.
Proof.
  induction d as [|[n0 b1] rest IH]; simpl; [discriminate|].
  destruct (bytes_Equal n0 n); auto.
Qed.

(** The limits on keys and values. *)
Lemma within_limits_node_put (key val : bytes) (b : Bucket) :
  (len key =? 0)%Z = false -> (len key >? MaxKeySize)%Z = false ->
  (len val >? MaxValueSize)%Z = false ->
  within_limits b = true -> within_limits (node_put key val b) = true.
Proof.
  intros K1 K2 L. unfold within_limits. apply forallb_node_put.
  cbn [fst snd]. now rewrite K1, K2, L.
Qed.

Lemma within_limits_no_empty_key (b : Bucket) :
  within_limits b = true -> lookup [] b = None.
Proof.
  unfold within_limits.
  induction b as [|[k v] rest IH]; simpl; [reflexivity|].
  rewrite !andb_true_iff. intros [[[K _] _] R].
  destruct k as [|x k]; [discriminate|]. cbn. auto.
Qed.

End bucket_facts.

Section StoreStates.
Import bbolt bbolt_facts bucket_facts.

Context {V T : Type} `{G : Gob V T}.

Lemma collection_written (name : bytes) (b b0 : Bucket) (d : DB) :
  find_bucket name d = Some b0 ->
  collection (mkStore (write_bucket name b d) name) = b.
Proof.
  intros F. unfold collection. cbn.
  now rewrite (find_write_bucket _ _ _ _ F).
Qed.

(** The store a [Put] that the engine takes leaves. *)
Lemma Put_state (s : Store) (key : string) (v : V) (buf : bytes) :
  store_ok s = true -> Encode v = inr buf ->
  key_taken key = true -> value_taken buf = true ->
  state (Put s key (Some v)) =
  mkStore (write_bucket (bucketName s)
             (node_put (bytes_of_string key) buf (collection s)) (db s))
          (bucketName s).
Proof.
  intros Ok E K L. destruct (store_ok_bucket s Ok) as [F O].
  unfold key_taken in K. apply andb_true_iff in K as [K1 K2].
  apply negb_true_iff in K1, K2. apply negb_true_iff in L.
  unfold Put. rewrite E.
  unfold DB_Update, Bucket_Put, Tx_Bucket, elements. cbn.
  rewrite F. cbn. rewrite K1, K2, L. cbn. now rewrite F.
Qed.

(** The store a [Delete] of a key that is there leaves. *)
Lemma Delete_state (s : Store) (key : string) :
  store_ok s = true -> present s key = true ->
  state (Delete s key) =
  mkStore (write_bucket (bucketName s)
             (node_del (bytes_of_string key) (collection s)) (db s))
          (bucketName s).
Proof.
  intros Ok P. destruct (store_ok_bucket s Ok) as [F O].
  unfold present in P. rewrite <- (seek_is_lookup _ _ O) in P.
  unfold Delete, DB_Update, Tx_Bucket, Bucket_Cursor, Cursor_Seek,
    Cursor_Delete, elements.
  cbn. rewrite F. cbn. rewrite F.
  destruct (nth_error (collection s)
              (search (bytes_of_string key) (collection s)))
    as [[k v]|] eqn:S; [|discriminate].
  rewrite string_eqb_bytes.
  destruct (bytes_Equal k (bytes_of_string key)) eqn:E; [|discriminate].
  apply bytes_Equal_true in E. now subst k.
Qed.

(** Whatever the store, a call leaves the database as it was or with the
    store's own bucket rewritten. *)
Lemma Put_writes_own (s : Store) (key : string) (value : option V) :
  state (Put s key value) = s
  \/ exists b, find_bucket (bucketName s) (db s) <> None
     /\ state (Put s key value)
        = mkStore (write_bucket (bucketName s) b (db s)) (bucketName s).
Proof.
  unfold Put. destruct value as [v|]; [|now left].
  destruct (Encode v) as [err|buf]; [now left|].
  unfold DB_Update, Bucket_Put, Tx_Bucket, elements. cbn.
  destruct (find_bucket (bucketName s) (db s)) as [b0|] eqn:F; cbn;
    [|left; apply same_store].
  destruct (len (bytes_of_string key) =? 0)%Z; cbn;
    [left; apply same_store|].
  destruct (len (bytes_of_string key) >? MaxKeySize)%Z; cbn;
    [left; apply same_store|].
  destruct (len buf >? MaxValueSize)%Z; cbn; [left; apply same_store|].
  right. eexists. split; [discriminate | reflexivity].
Qed.

Lemma Delete_writes_own (s : Store) (key : string) :
  state (Delete s key) = s
  \/ exists b, find_bucket (bucketName s) (db s) <> None
     /\ state (Delete s key)
        = mkStore (write_bucket (bucketName s) b (db s)) (bucketName s).
Proof.
  unfold Delete, DB_Update, Tx_Bucket, Bucket_Cursor, Cursor_Seek,
    Cursor_Delete, elements. cbn.
  destruct (find_bucket (bucketName s) (db s)) as [b0|] eqn:F; cbn;
    [|left; apply same_store].
  rewrite F.
  destruct (nth_error b0 (search (bytes_of_string key) b0)) as [[k v]|];
    cbn; [|left; apply same_store].
  destruct (negb (string_of_bytes k =? key)%string); cbn;
    [left; apply same_store|].
  right. eexists. split; [discriminate | reflexivity].
Qed.

Lemma after_writes_own (s : Store) (c : call) :
  after s c = s
  \/ exists b, find_bucket (bucketName s) (db s) <> None
     /\ after s c
        = mkStore (write_bucket (bucketName s) b (db s)) (bucketName s).
Proof.
  destruct c as [key value|key value|key]; cbn [after].
  - apply Put_writes_own.
  - left. apply Get_state.
  - apply Delete_writes_own.
Qed.

(** On an open store a [Put] either fails and changes nothing, or is one
    the engine takes. *)
Lemma Put_fails_or_stores (s : Store) (key : string) (value : option V) :
  store_ok s = true ->
  (result (Put s key value) <> returns_nil /\ state (Put s key value) = s)
  \/ exists v buf, value = Some v /\ Encode v = inr buf
       /\ key_taken key = true /\ value_taken buf = true.
Proof.
  intros Ok. destruct value as [v|];
    [|left; split; [discriminate | reflexivity]].
  destruct (Encode v) as [err|buf] eqn:E.
  - left. unfold Put. rewrite E. split; [discriminate | reflexivity].
  - destruct (key_taken key) eqn:K, (value_taken buf) eqn:L;
      try (right; exists v, buf; now repeat split);
      left;
      assert (N : result (Put s key (Some v)) <> returns_nil)
        by (rewrite (Put_refused s key v buf Ok E);
            unfold key_taken, value_taken in *;
            destruct (len (bytes_of_string key) =? 0)%Z; try discriminate;
            destruct (len (bytes_of_string key) >? MaxKeySize)%Z;
            try discriminate;
            destruct (len buf >? MaxValueSize)%Z; discriminate);
      (split; [exact N | now apply Put_failed_state]).
Qed.

End StoreStates.

Section Lifetime.
Import bbolt bbolt_facts bucket_facts.

Context {V T : Type} `{G : Gob V T}.

Lemma bytes_of_string_inj (a b : string) :
  bytes_of_string a = bytes_of_string b -> a = b.
Proof.
  intros E.
  now rewrite <- (string_of_bytes_of_string a), E, string_of_bytes_of_string.
Qed.








(** The limits on keys and values hold along the life of a store. *)
Lemma after_within_limits (s : Store) (c : call) :
  store_ok s = true -> within_limits (collection s) = true ->
  within_limits (collection (after s c)) = true.
Proof.
  intros Ok W. destruct c as [key value|key value|key]; cbn [after].
  - destruct (Put_fails_or_stores s key value Ok)
      as [[_ ->] | (v & buf & -> & E & K & L)]; [assumption|].
    destruct (Put_stores s key v buf Ok E K L) as (_ & -> & _).
    unfold key_taken in K. apply andb_true_iff in K as [K1 K2].
    apply negb_true_iff in K1, K2. apply negb_true_iff in L.
    now apply within_limits_node_put.
  - now rewrite Get_state.
  - destruct (Delete_is_direct s key Ok) as (_ & -> & _).
    unfold Delete_direct.
    destruct (lookup (bytes_of_string key) (collection s)); [|assumption].
    cbn [snd]. now apply forallb_filter_keep.
Qed.

Lemma run_within_limits (calls : list call) (s : Store) :
  store_ok s = true -> within_limits (collection s) = true ->
  store_ok (run s calls) = true
  /\ within_limits (collection (run s calls)) = true.
Proof.
  unfold run. revert s. induction calls as [|c calls IH]; intros s Ok W;
    [now split|].
  cbn. apply IH; [now apply after_keeps_ok | now apply after_within_limits].
Qed.

End Lifetime.

(** * Further properties *)

Section Opening.
Import bbolt bbolt_facts bucket_facts.

Context {V T : Type} `{G : Gob V T}.

(** X1.  [Open] returns either a store and a nil error or no store and
    an error, never both and never neither: the error of [bbolt.Open] as
    it is, the engine's ErrBucketNameRequired for an empty bucket name,
    and otherwise a store with that bucket name whose bucket exists. *)
Theorem Open_store_or_error (file : error + DB) (name : string) :
  match file with
  | inl err => Open file name = (None, fails err)
  | inr d =>
      if (name =? "")%string
      then Open file name = (None, fails ErrBucketNameRequired)
      else exists s, Open file name = (Some s, returns_nil)
             /\ GetBucketName s = bytes_of_string name
             /\ find_bucket (bytes_of_string name) (GetDb s) <> None
  end.
Proof.
  destruct file as [err|d]; [reflexivity|].
  destruct name as [|a name]; [reflexivity|].
  cbn [String.eqb].
  unfold Open, DB_Update, Tx_CreateBucketIfNotExists. cbn.
  destruct (find_bucket _ d) as [b|] eqn:F; cbn; eexists;
    (split; [reflexivity|]); (split; [reflexivity|]); cbn.
  - unfold bytes_of_string. cbn. rewrite F. discriminate.
  - unfold bytes_of_string. cbn.
    change (Ascii.byte_of_ascii a :: list_byte_of_string name)
      with (list_byte_of_string (String a name)).
    rewrite (find_bucket_app_new _ _ _ F). discriminate.
Qed.

(** X2.  [Open] leaves the buckets that the file has as they are: a
    bucket of the given name is taken over with its entries and the
    database is unchanged, and only when there is none an empty one is
    added. *)
Theorem Open_keeps_buckets (d : DB) (name : string) (s : Store) :
  fst (Open (inr d) name) = Some s ->
  (forall (n : bytes) (b : Bucket),
     find_bucket n d = Some b -> find_bucket n (GetDb s) = Some b)
  /\ (forall b : Bucket,
        find_bucket (bytes_of_string name) d = Some b ->
        GetDb s = d /\ collection s = b)
  /\ (find_bucket (bytes_of_string name) d = None ->
        GetDb s = d ++ [(bytes_of_string name, [])] /\ collection s = []).
Proof.
  intros H. unfold GetDb, collection.
  apply Open_store in H as (d' & [= <-] & N & [(b & F & D) | (F & D)]);
    rewrite N, D; split; [| split | | split].
  - auto.
  - intros b' F'. now rewrite F'.
  - intros F'. rewrite F in F'. discriminate.
  - intros n b. apply find_app_old.
  - intros b F'. rewrite F in F'. discriminate.
  - intros _. now rewrite (find_bucket_app_new _ _ _ F).
Qed.


End Opening.

Section Writing.
Import bbolt bbolt_facts bucket_facts.

Context {V T : Type} `{G : Gob V T}.


(** X5.  After a [Put] that the engine takes, the key holds the bytes
    the encoder produced, and [Get] with any destination that is not nil
    answers what the decoder makes of exactly these bytes: its value, or
    its error as it is. *)
Theorem Get_decodes_what_Put_encoded (s : Store) (key : string) (v : V)
    (buf : bytes) (dest : T) :
  store_ok s = true -> Encode v = inr buf ->
  key_taken key = true -> value_taken buf = true ->
  lookup (bytes_of_string key) (collection (state (Put s key (Some v))))
  = Some buf
  /\ (result (Get (state (Put s key (Some v))) key (Some dest)),
      out (Get (state (Put s key (Some v))) key (Some dest)))
     = match Decode buf dest with
       | inl err => (fails (GobError err), None)
       | inr got => (returns_nil, Some got)
       end.
Proof.
  intros Ok E K L.
  destruct (Put_stores s key v buf Ok E K L) as (_ & C & Ok' & _).
  rewrite (Get_is_direct _ key (Some dest) Ok'). unfold Get_direct.
  rewrite C, lookup_node_put. now split.
Qed.

(** X6.  A [Put] that the engine takes changes nothing under any other
    key: a lookup and a [Get] of another key answer what they answered
    before. *)
Theorem Put_leaves_other_keys (s : Store) (key key' : string) (v : V)
    (buf : bytes) (value : option T) :
  store_ok s = true -> Encode v = inr buf ->
  key_taken key = true -> value_taken buf = true ->
  key' <> key ->
  lookup (bytes_of_string key') (collection (state (Put s key (Some v))))
  = lookup (bytes_of_string key') (collection s)
  /\ result (Get (state (Put s key (Some v))) key' value)
     = result (Get s key' value)
  /\ out (Get (state (Put s key (Some v))) key' value)
     = out (Get s key' value).
Proof.
  intros Ok E K L Other.
  destruct (Put_stores s key v buf Ok E K L) as (_ & C & Ok' & _).
  assert (N : bytes_of_string key' <> bytes_of_string key)
    by (intros X; now apply Other, bytes_of_string_inj).
  assert (Same : lookup (bytes_of_string key')
                   (collection (state (Put s key (Some v))))
                 = lookup (bytes_of_string key') (collection s))
    by (rewrite C; now apply lookup_node_put_other).
  split; [assumption|].
  pose proof (Get_is_direct _ key' value Ok') as D1.
  pose proof (Get_is_direct s key' value Ok) as D2.
  unfold Get_direct in D1, D2. rewrite Same, <- D2 in D1.
  now apply pair_equal_spec in D1.
Qed.

(** X7.  A call that does not return nil leaves the store exactly as it
    was: a failed [Put] or [Delete] is rolled back, a [Get] never
    writes. *)
Theorem failed_call_changes_nothing (s : Store) (c : call) :
  answer s c <> returns_nil -> after s c = s.
Proof.
  destruct c as [key value|key value|key]; cbn [answer after]; intros N.
  - now apply Put_failed_state.
  - apply Get_state.
  - now apply Delete_failed_state.
Qed.

(** X8.  No call touches another bucket of the file: under every name
    but the store's own, the database that [GetDb] gives holds after the
    call what it held before. *)
Theorem calls_write_own_bucket_only (s : Store) (c : call) (n : bytes) :
  n <> GetBucketName s ->
  find_bucket n (GetDb (after s c)) = find_bucket n (GetDb s).
Proof.
  unfold GetBucketName, GetDb. intros N.
  destruct (after_writes_own s c) as [-> | (b & _ & ->)]; [reflexivity|].
  cbn. now apply find_write_other.
Qed.

(** X9.  On an open store the number of entries grows by one with a
    [Put] of a key that was not there and stays with a [Put] of a key
    that was. *)
Theorem Put_entry_count (s : Store) (key : string) (v : V) (buf : bytes) :
  store_ok s = true -> Encode v = inr buf ->
  key_taken key = true -> value_taken buf = true ->
  List.length (collection (state (Put s key (Some v)))) =
  if present s key then List.length (collection s)
  else S (List.length (collection s)).
Proof.
  intros Ok E K L. destruct (store_ok_bucket s Ok) as [_ O].
  destruct (Put_stores s key v buf Ok E K L) as (_ & -> & _).
  rewrite (length_node_put _ _ _ O). unfold present.
  now destruct (lookup (bytes_of_string key) (collection s)).
Qed.

(** X10.  On an open store a [Delete] of a key that is there takes the
    number of entries down by exactly one. *)
Theorem Delete_entry_count (s : Store) (key : string) :
  store_ok s = true -> present s key = true ->
  S (List.length (collection (state (Delete s key))))
  = List.length (collection s).
Proof.
  intros Ok P. destruct (store_ok_bucket s Ok) as [F O].
  rewrite (Delete_state s key Ok P), (collection_written _ _ _ _ F).
  rewrite (length_node_del (bytes_of_string key) _ O).
  unfold present in P.
  now destruct (lookup (bytes_of_string key) (collection s)).
Qed.

End Writing.

Section Transactions.
Import bbolt bbolt_facts bucket_facts.

Context {V T : Type} `{G : Gob V T}.

Lemma DB_Update_commits {A : Type} (d : DB) (fn : Tx -> Ret Tx A) :
  trace (fn (mkTx d true)) = [] ->
  trace (DB_Update d fn) =
  if match result (DB_Update d fn) with Returns None => true | _ => false end
  then [EvBegin true; EvCommit] else [EvBegin true; EvRollback].
Proof.
  unfold DB_Update. destruct (fn (mkTx d true)) as [tx res o tr]. cbn.
  intros ->. now destruct res as [[e|]|].
Qed.

(** X11.  [Put] and [Delete] commit exactly when they return nil: a
    [Delete] runs one writable transaction that is committed on nil and
    rolled back otherwise, and so does a [Put] once the encoder has
    succeeded. *)
Theorem committed_iff_nil (s : Store) (key : string) (v : V) (buf : bytes) :
  Encode v = inr buf ->
  trace (Put s key (Some v)) =
    (if match result (Put s key (Some v)) with
        | Returns None => true
        | _ => false
        end
     then [EvEncode; EvBegin true; EvCommit]
     else [EvEncode; EvBegin true; EvRollback])
  /\ trace (Delete s key) =
     (if match result (Delete s key) with
         | Returns None => true
         | _ => false
         end
      then [EvBegin true; EvCommit]
      else [EvBegin true; EvRollback]).
Proof.
  intros E. split.
  - unfold Put. rewrite E. cbn [trace result].
    rewrite DB_Update_commits.
    + now destruct (result (DB_Update _ _)) as [[e|]|].
    + now destruct (Bucket_Put _ _ _ _).
  - unfold Delete. cbn [trace result].
    apply DB_Update_commits.
    destruct (Bucket_Cursor _) as [c|]; [|reflexivity].
    destruct (Cursor_Seek _ c _) as [c' [[k v']|]]; [|reflexivity].
    destruct (negb _); [reflexivity|].
    now destruct (Cursor_Delete _ c').
Qed.

(** X12.  [Get] runs one read-only transaction and commits nothing; on
    an open store it calls the decoder once when the key is there and the
    destination is not nil, and not at all otherwise. *)
Theorem Get_calls (s : Store) (key : string) (value : option T) :
  store_ok s = true ->
  trace (Get s key value) =
  match value with
  | Some _ =>
      if present s key then [EvBegin false; EvDecode; EvRollback]
      else [EvBegin false; EvRollback]
  | None => [EvBegin false; EvRollback]
  end.
Proof.
  intros Ok. destruct (store_ok_bucket s Ok) as [F O].
  unfold present. rewrite <- (seek_is_lookup _ _ O).
  unfold Get, DB_View, Tx_Bucket, Bucket_Cursor, Cursor_Seek, elements.
  cbn. rewrite F. cbn. rewrite F.
  destruct (nth_error (collection s)
              (search (bytes_of_string key) (collection s))) as [[k v]|];
    [|now destruct value].
  rewrite string_eqb_bytes.
  destruct (bytes_Equal k (bytes_of_string key)); cbn; [|now destruct value].
  destruct value as [dest|]; [|reflexivity].
  now destruct (Decode v dest).
Qed.


(** X14.  When the store's bucket is not in the database, as after its
    removal through [GetDb], the calls reach a nil bucket: [Get] and
    [Delete] panic, and so does [Put] of a value that the encoder takes;
    the database is left as it was. *)
Theorem missing_bucket_panics (s : Store) (key : string) :
  find_bucket (GetBucketName s) (GetDb s) = None ->
  (forall value : option T, result (Get s key value) = Panics)
  /\ result (Delete s key) = Panics
  /\ state (Delete s key) = s
  /\ (forall (v : V) (buf : bytes),
        Encode v = inr buf ->
        result (Put s key (Some v)) = Panics
        /\ state (Put s key (Some v)) = s).
Proof.
  unfold GetBucketName, GetDb. intros F.
  split; [|split; [|split]].
  - intros value.
    unfold Get, DB_View, Tx_Bucket, Bucket_Cursor. cbn. now rewrite F.
  - unfold Delete, DB_Update, Tx_Bucket, Bucket_Cursor. cbn. now rewrite F.
  - unfold Delete, DB_Update, Tx_Bucket, Bucket_Cursor. cbn. rewrite F.
    cbn. apply same_store.
  - intros v buf E. unfold Put. rewrite E.
    unfold DB_Update, Bucket_Put, Tx_Bucket. cbn. rewrite F. cbn.
    split; [reflexivity | apply same_store].
Qed.

(** X15.  Along the life of an open store whose entries are within the
    engine's limits, as they are in a new bucket, they stay within them:
    every key has 1 to [MaxKeySize] bytes and every value at most
    [MaxValueSize].  So the empty key is never there: [Get] and [Delete]
    of it return ErrNotFound. *)
Theorem entries_stay_within_limits (s : Store) (calls : list call) :
  store_ok s = true -> within_limits (collection s) = true ->
  within_limits (collection (run s calls)) = true
  /\ present (run s calls) "" = false
  /\ (forall value : option T,
        result (Get (run s calls) "" value) = fails ErrNotFound)
  /\ result (Delete (run s calls) "") = fails ErrNotFound.
Proof.
  intros Ok W. destruct (run_within_limits calls s Ok W) as [Ok' W'].
  assert (Gone : present (run s calls) "" = false)
    by (unfold present; cbn; now rewrite within_limits_no_empty_key).
  split; [assumption|]. split; [assumption|].
  now apply absent_reported.
Qed.

End Transactions.

Section Composition.
Import bbolt bbolt_facts bucket_facts.

Context {V T : Type} `{G : Gob V T}.




(** X18.  A [Put] under a key that was not there, followed by a [Delete]
    of that key, gives back the store as it was before the two calls. *)
Theorem Put_then_Delete_restores (s : Store) (key : string) (v : V)
    (buf : bytes) :
  store_ok s = true -> Encode v = inr buf ->
  key_taken key = true -> value_taken buf = true ->
  present s key = false ->
  result (Delete (state (Put s key (Some v))) key) = returns_nil
  /\ state (Delete (state (Put s key (Some v))) key) = s.
Proof.
  intros Ok E K L Absent. destruct (store_ok_bucket s Ok) as [F O].
  destruct (Put_stores s key v buf Ok E K L) as (_ & C & Ok1 & _).
  assert (P : present (state (Put s key (Some v))) key = true)
    by (unfold present; now rewrite C, lookup_node_put).
  split.
  - destruct (Delete_is_direct _ key Ok1) as (R & _). rewrite R.
    unfold Delete_direct. unfold present in P.
    now destruct (lookup (bytes_of_string key)
                    (collection (state (Put s key (Some v))))).
  - rewrite (Delete_state _ key Ok1 P), C.
    rewrite (Put_state s key v buf Ok E K L). cbn [db bucketName].
    rewrite write_bucket_twice.
    assert (Back : node_del (bytes_of_string key)
                     (node_put (bytes_of_string key) buf (collection s))
                   = collection s).
    { apply ordered_ext; try assumption.
      - rewrite node_del_filter by now apply ordered_node_put.
        now apply ordered_filter, ordered_node_put.
      - intros k. rewrite node_del_filter by now apply ordered_node_put.
        destruct (bytes_Equal k (bytes_of_string key)) eqn:Q.
        + apply bytes_Equal_true in Q. subst k.
          rewrite lookup_filter_same. unfold present in Absent.
          now destruct (lookup (bytes_of_string key) (collection s)).
        + apply bytes_Equal_false in Q.
          rewrite lookup_filter_other by assumption.
          now apply lookup_node_put_other. }
    rewrite Back, (write_bucket_same _ _ _ F). apply same_store.
Qed.

End Composition.

(** * The further properties on the sample stores *)

Module MoreRuns.
Import Sample SampleFacts.

Lemma Open_keeps_buckets_run :
  fst (Open (inr (db three)) "kv") = Some three
  /\ GetDb three = db three
  /\ collection three = collection three.
Proof.
  split; [reflexivity|].
  destruct (Open_keeps_buckets (db three) "kv" three eq_refl)
    as (_ & Taken & _).
  exact (Taken (collection three) eq_refl).
Defined.



Lemma Get_decodes_what_Put_encoded_run :
  (store_ok three = true
   /\ Encode (Str "three") = inr (bytes_of_string "sthree")
   /\ key_taken "gamma" = true
   /\ value_taken (bytes_of_string "sthree") = true)
  /\ result (Get (state (Put three "gamma" (Some (Str "three")))) "gamma"
               (Some PtrBool))
     = fails (GobError "gob: type mismatch").
Proof.
  split; [repeat split|].
  destruct (Get_decodes_what_Put_encoded (G := gob) three "gamma" (Str "three")
              (bytes_of_string "sthree") PtrBool
              eq_refl eq_refl eq_refl eq_refl) as [_ D].
  exact (f_equal fst D).
Defined.

Lemma Put_leaves_other_keys_run :
  (store_ok three = true
   /\ Encode (Str "three") = inr (bytes_of_string "sthree")
   /\ key_taken "gamma" = true
   /\ value_taken (bytes_of_string "sthree") = true
   /\ "alpha"%string <> "gamma"%string)
  /\ out (Get (state (Put three "gamma" (Some (Str "three")))) "alpha"
            (Some PtrBool))
     = out (Get three "alpha" (Some PtrBool)).
Proof.
  assert (Other : "alpha"%string <> "gamma"%string) by discriminate.
  split; [repeat split; try reflexivity; exact Other|].
  destruct (Put_leaves_other_keys (G := gob) three "gamma" "alpha" (Str "three")
              (bytes_of_string "sthree") (Some PtrBool)
              eq_refl eq_refl eq_refl eq_refl Other) as (_ & _ & Same).
  exact Same.
Defined.

Lemma failed_call_changes_nothing_run :
  answer three (CallDelete "zeta") <> returns_nil
  /\ after three (CallDelete "zeta") = three.
Proof.
  assert (Failed : answer (T := ptr) three (CallDelete "zeta")
                   <> returns_nil) by discriminate.
  split; [exact Failed|].
  exact (failed_call_changes_nothing three (CallDelete "zeta") Failed).
Defined.

Lemma calls_write_own_bucket_only_run :
  let s := mkStore ((bytes_of_string "other", [([], [])]) :: db three)
             (bytes_of_string "kv") in
  bytes_of_string "other" <> GetBucketName s
  /\ bbolt.find_bucket (bytes_of_string "other")
       (GetDb (after s (CallPut "k" (Some (Str "v")))))
     = Some [([], [])].
Proof.
  intros s.
  assert (Other : bytes_of_string "other" <> GetBucketName s)
    by discriminate.
  split; [exact Other|].
  exact (calls_write_own_bucket_only s (CallPut "k" (Some (Str "v")))
           (bytes_of_string "other") Other).
Defined.

Lemma Put_entry_count_run :
  (store_ok three = true
   /\ Encode (Str "three") = inr (bytes_of_string "sthree")
   /\ key_taken "gamma" = true
   /\ value_taken (bytes_of_string "sthree") = true)
  /\ List.length
       (collection (state (Put three "gamma" (Some (Str "three"))))) = 4
  /\ List.length
       (collection (state (Put three "alpha" (Some (Str "three"))))) = 3.
Proof.
  split; [repeat split|]. split.
  - exact (Put_entry_count (G := gob) three "gamma" (Str "three")
             (bytes_of_string "sthree") eq_refl eq_refl eq_refl eq_refl).
  - exact (Put_entry_count (G := gob) three "alpha" (Str "three")
             (bytes_of_string "sthree") eq_refl eq_refl eq_refl eq_refl).
Defined.

Lemma Delete_entry_count_run :
  (store_ok three = true /\ present three "alpha" = true)
  /\ S (List.length (collection (state (Delete three "alpha")))) = 3.
Proof.
  split; [split; reflexivity|].
  exact (Delete_entry_count three "alpha" eq_refl eq_refl).
Defined.

Lemma committed_iff_nil_run :
  Encode (Str "x") = inr (bytes_of_string "sx")
  /\ trace (Put three "" (Some (Str "x")))
     = [EvEncode; EvBegin true; EvRollback]
  /\ trace (Put three "k" (Some (Str "x")))
     = [EvEncode; EvBegin true; EvCommit]
  /\ trace (Delete three "alpha") = [EvBegin true; EvCommit].
Proof.
  split; [reflexivity|].
  destruct (committed_iff_nil (G := gob) three "" (Str "x")
              (bytes_of_string "sx") eq_refl) as [P1 _].
  destruct (committed_iff_nil (G := gob) three "k" (Str "x")
              (bytes_of_string "sx") eq_refl) as [P2 _].
  destruct (committed_iff_nil (G := gob) three "alpha" (Str "x")
              (bytes_of_string "sx") eq_refl) as [_ D].
  split; [exact P1|]. split; [exact P2 | exact D].
Defined.

Lemma Get_calls_run :
  store_ok three = true
  /\ trace (Get three "alpha" (Some PtrStr))
     = [EvBegin false; EvDecode; EvRollback]
  /\ trace (Get three "alph" (Some PtrStr)) = [EvBegin false; EvRollback].
Proof.
  split; [reflexivity|]. split.
  - exact (Get_calls three "alpha" (Some PtrStr) eq_refl).
  - exact (Get_calls three "alph" (Some PtrStr) eq_refl).
Defined.


Lemma missing_bucket_panics_run :
  let s := mkStore [] (bytes_of_string "kv") in
  bbolt.find_bucket (GetBucketName s) (GetDb s) = None
  /\ result (Get s "k" (Some PtrStr)) = Panics
  /\ result (Delete s "k") = Panics.
Proof.
  intros s. split; [reflexivity|].
  destruct (missing_bucket_panics (T := ptr) s "k" eq_refl)
    as (Gets & Deletes & _).
  split; [exact (Gets (Some PtrStr)) | exact Deletes].
Defined.

Lemma entries_stay_within_limits_run :
  let calls := [CallPut "" (Some (Str "x")); CallPut "a" (Some (Str "x"));
                CallDelete "b"] in
  (store_ok fresh = true /\ within_limits (collection fresh) = true)
  /\ within_limits (collection (run fresh calls)) = true
  /\ result (Get (run fresh calls) "" (Some PtrStr)) = fails ErrNotFound.
Proof.
  intros calls. split; [split; reflexivity|].
  destruct (entries_stay_within_limits fresh calls eq_refl eq_refl)
    as (W & _ & Gets & _).
  split; [exact W | exact (Gets (Some PtrStr))].
Defined.



Lemma Put_then_Delete_restores_run :
  (store_ok three = true
   /\ Encode (Str "three") = inr (bytes_of_string "sthree")
   /\ key_taken "gamma" = true
   /\ value_taken (bytes_of_string "sthree") = true
   /\ present three "gamma" = false)
  /\ result (Delete (state (Put three "gamma" (Some (Str "three"))))
               "gamma") = returns_nil
  /\ state (Delete (state (Put three "gamma" (Some (Str "three"))))
              "gamma") = three.
Proof.
  split; [repeat split|].
  exact (Put_then_Delete_restores (G := gob) three "gamma" (Str "three")
           (bytes_of_string "sthree")
           eq_refl eq_refl eq_refl eq_refl eq_refl).
Defined.

End MoreRuns.
